(** * Neural-network visualizer: layout, input validation and render contract

    Shallow embedding of [NeuralNetworkVisualizer.tsx].  Two revisions of the
    component are in the repository: the plain one and the one that carries a
    diagram name above the canvas.  They differ in the [diagramName] state
    and handler branch, in the [+ 30] added to every node's [y], and in the
    SVG height; the embedding is parameterised by the [revision].

    Conventions of the embedding.
    - A JavaScript string is the list of its UTF-16 code units ([jsstring]).
    - A JavaScript number that holds an integer is a [Z].  This is exact as
      long as magnitudes stay below 2^53; rounding and overflow of longer
      digit strings are not modelled.
    - An array is a list of any length: the engine's bound on array lengths
      (2^32 - 1, past which [Array.from] raises) is treated like running out
      of memory and is not modelled.
    - [parseInt] yields [option Z], [None] standing for NaN.
    - The animation speed is a [number]: NaN, an infinity or an exact
      rational (rounding to the nearest double is not modelled).
    - React state is a record; an event handler is a function from the state
      and the event to the next state.  The render key, which only forces the
      SVG to remount, is left out.
    - The geometry of the animated marker is stated over the real numbers. *)

From Stdlib Require Import QArith Reals Lra.
From Stdlib Require DecimalNat Qcanon.
From stdpp Require Import base list numbers strings option pretty.

#[local] Open Scope Z_scope.

(** ** JavaScript string and number primitives used by the component *)
Module JS.

Definition code_unit := N.
Definition jsstring := list code_unit.

(** A literal: the code units of an ASCII (Latin-1) string. *)
Definition js (s : string) : jsstring :=
  Ascii.N_of_ascii <$> String.list_ascii_of_string s.

(** WhiteSpace and LineTerminator code points (ECMA-262, 12.2 and 12.3):
    the characters removed by [trim] and skipped by [parseInt] and
    [parseFloat]. *)
Definition isWhiteSpace (c : code_unit) : bool :=
  ((9 <=? c) && (c <=? 13)
   || (c =? 32) || (c =? 160) || (c =? 5760)
   || (8192 <=? c) && (c <=? 8202)
   || (c =? 8232) || (c =? 8233) || (c =? 8239) || (c =? 8287)
   || (c =? 12288) || (c =? 65279))%N.

Fixpoint trimStart (s : jsstring) : jsstring :=
  match s with
  | c :: r => if isWhiteSpace c then trimStart r else s
  | [] => []
  end.

Definition trimEnd (s : jsstring) : jsstring := reverse (trimStart (reverse s)).

(** [String.prototype.trim] *)
Definition trim (s : jsstring) : jsstring := trimEnd (trimStart s).

(** [String.prototype.split] with a one-character separator: the empty
    string splits into one empty segment. *)
Fixpoint split (sep : code_unit) (s : jsstring) : list jsstring :=
  match s with
  | [] => [[]]
  | c :: r =>
      if (c =? sep)%N then [] :: split sep r
      else match split sep r with
           | seg :: segs => (c :: seg) :: segs
           | [] => [[c]]
           end
  end.

(** Value of a code unit as a digit of the given radix, if it is one. *)
Definition digitValue (radix : Z) (c : code_unit) : option Z :=
  let v :=
    if ((48 <=? c) && (c <=? 57))%N then Some (Z.of_N c - 48)
    else if ((97 <=? c) && (c <=? 122))%N then Some (Z.of_N c - 97 + 10)
    else if ((65 <=? c) && (c <=? 90))%N then Some (Z.of_N c - 65 + 10)
    else None in
  match v with
  | Some d => if d <? radix then Some d else None
  | None => None
  end.

(** The longest prefix of radix digits and the rest: [(count, value, rest)]. *)
Fixpoint digits (radix : Z) (n : nat) (acc : Z) (s : jsstring)
  : nat * Z * jsstring :=
  match s with
  | c :: r =>
      match digitValue radix c with
      | Some d => digits radix (S n) (radix * acc + d) r
      | None => (n, acc, s)
      end
  | [] => (n, acc, [])
  end.

Definition stripSign (s : jsstring) : Z * jsstring :=
  match s with
  | 45%N :: r => (-1, r)
  | 43%N :: r => (1, r)
  | _ => (1, s)
  end.

(** [parseInt(string)] with no radix argument: skip leading white space,
    take an optional sign, switch to radix 16 after [0x] or [0X], read the
    longest run of digits; NaN when there is none. *)
Definition parseInt (str : jsstring) : option Z :=
  let '(sign, s) := stripSign (trimStart str) in
  let '(radix, s) :=
    match s with
    | 48%N :: 120%N :: r => (16, r)
    | 48%N :: 88%N :: r => (16, r)
    | _ => (10, s)
    end in
  match digits radix 0 0 s with
  | (O, _, _) => None
  | (_, mathInt, _) => Some (sign * mathInt)
  end.

(** [parseInt(value) || 1]: NaN and 0 are falsy. *)
Definition orOne (n : option Z) : Z :=
  match n with
  | None => 1
  | Some 0 => 1
  | Some v => v
  end.

(** [Math.max] of a first argument and the remaining ones. *)
Definition Math_max (x : Z) (xs : list Z) : Z := foldl Z.max x xs.

(** Numbers that need not be integers (the animation speed). *)
Inductive number :=
| NaN
| Infinity (negative : bool)
| Finite (q : Q).

Definition pow10 (e : Z) : Q :=
  if 0 <=? e then inject_Z (10 ^ e) else / inject_Z (10 ^ (- e)).

(** [10^-k] times the value read, for the [k] digits after the point. *)
Definition fraction (count : nat) (value : Z) : Q :=
  inject_Z value * pow10 (- Z.of_nat count).

(** The optional ExponentPart: [e] or [E], an optional sign and at least
    one digit; anything else leaves the exponent at 0. *)
Definition exponentPart (s : jsstring) : Z :=
  match s with
  | c :: r =>
      if ((c =? 101) || (c =? 69))%N then
        let '(sign, r) := stripSign r in
        match digits 10 0 0 r with
        | (O, _, _) => 0
        | (_, e, _) => sign * e
        end
      else 0
  | [] => 0
  end.

(** [parseFloat(string)]: the longest prefix that is a StrDecimalLiteral. *)
Definition parseFloat (str : jsstring) : number :=
  let '(sign, s) := stripSign (trimStart str) in
  if bool_decide (take 8 s = js "Infinity") then Infinity (sign <? 0)
  else
    let '(ni, int, s) := digits 10 0 0 s in
    let '(nf, frac, s) :=
      match s with
      | 46%N :: r =>
          match digits 10 0 0 r with
          | (O, _, _) =>
              match ni with O => (O, 0, s) | _ => (O, 0, r) end
          | d => d
          end
      | _ => (O, 0, s)
      end in
    match ni, nf with
    | O, O => NaN
    | _, _ =>
        Finite (Qred (inject_Z sign * (inject_Z int + fraction nf frac)
                      * pow10 (exponentPart s)))
    end.

End JS.

Import JS.

(** ** The component: state, event handler, layout and render *)
Module Visualizer.

Inductive revision := Plain | Labelled.

Record NeuralNetworkConfig := {
  inputNodes : Z;
  hiddenLayers : list Z;
  outputNodes : Z
}.

Record state := {
  config : NeuralNetworkConfig;
  speed : number;
  hiddenLayersInput : jsstring;
  error : option string;
  diagramName : jsstring
}.

(** The [useState] initial values. *)
Definition initial : state := {|
  config := {| inputNodes := 3; hiddenLayers := [4]; outputNodes := 2 |};
  speed := Finite 1;
  hiddenLayersInput := js "4";
  error := None;
  diagramName := js "My Neural Network"
|}.

Definition errorMessage : string :=
  "Invalid hidden layers input. Please enter comma-separated numbers (e.g., 4,3,2) or leave empty.".

(** [value.split(',').map(n => parseInt(n.trim())).filter(n => !isNaN(n))]:
    [omap] maps and drops the NaN results in one pass. *)
Definition parseHiddenLayers (value : jsstring) : list Z :=
  omap (λ n, parseInt (trim n)) (split 44%N value).

(** [{ ...prev, hiddenLayers: parsedLayers }] *)
Definition withHiddenLayers (parsedLayers : list Z) (prev : NeuralNetworkConfig)
  : NeuralNetworkConfig :=
  {| inputNodes := inputNodes prev;
     hiddenLayers := parsedLayers;
     outputNodes := outputNodes prev |}.

(** [{ ...prev, [name]: v }], reached for every name but [hiddenLayers],
    [speed] and (labelled revision) [diagramName].  A name that is no field
    of the record adds a property that nothing reads. *)
Definition withField (name : string) (v : Z) (prev : NeuralNetworkConfig)
  : NeuralNetworkConfig :=
  if decide (name = "inputNodes") then
    {| inputNodes := v;
       hiddenLayers := hiddenLayers prev;
       outputNodes := outputNodes prev |}
  else if decide (name = "outputNodes") then
    {| inputNodes := inputNodes prev;
       hiddenLayers := hiddenLayers prev;
       outputNodes := v |}
  else prev.

Definition setHiddenLayersInput (value : jsstring) (s : state) : state :=
  {| config := config s; speed := speed s; hiddenLayersInput := value;
     error := error s; diagramName := diagramName s |}.

Definition setError (e : option string) (s : state) : state :=
  {| config := config s; speed := speed s;
     hiddenLayersInput := hiddenLayersInput s;
     error := e; diagramName := diagramName s |}.

Definition setConfig (f : NeuralNetworkConfig → NeuralNetworkConfig) (s : state)
  : state :=
  {| config := f (config s); speed := speed s;
     hiddenLayersInput := hiddenLayersInput s;
     error := error s; diagramName := diagramName s |}.

Definition setSpeed (v : number) (s : state) : state :=
  {| config := config s; speed := v;
     hiddenLayersInput := hiddenLayersInput s;
     error := error s; diagramName := diagramName s |}.

Definition setDiagramName (value : jsstring) (s : state) : state :=
  {| config := config s; speed := speed s;
     hiddenLayersInput := hiddenLayersInput s;
     error := error s; diagramName := value |}.

Definition hasDiagramName (r : revision) : bool :=
  match r with Plain => false | Labelled => true end.

(** The change handler shared by all inputs; [name] and [value] are those
    of the event target.  The [diagramName] branch exists in the labelled
    revision only. *)
Definition handleInputChange (r : revision) (s : state)
    (name : string) (value : jsstring) : state :=
  if decide (name = "hiddenLayers") then
    let s := setHiddenLayersInput value s in
    let parsedLayers := parseHiddenLayers value in
    if bool_decide (length parsedLayers = 0%nat) && negb (bool_decide (value = []))
    then setError (Some errorMessage) s
    else setConfig (withHiddenLayers parsedLayers) (setError None s)
  else if decide (name = "speed") then
    setSpeed (parseFloat value) s
  else if hasDiagramName r && bool_decide (name = "diagramName") then
    setDiagramName value s
  else
    setConfig (withField name (Z.max (orOne (parseInt value)) 1)) s.

(** *** Layout *)

Definition layerDistance : Z := 150.
Definition neuronDistance : Z := 40.

Definition layers (c : NeuralNetworkConfig) : list Z :=
  inputNodes c :: hiddenLayers c ++ [outputNodes c].

Definition width (c : NeuralNetworkConfig) : Z :=
  (Z.of_nat (length (layers c)) - 1) * layerDistance + 100.

(** [Math.max(...layers) * neuronDistance]; [layers] always starts with
    [inputNodes]. *)
Definition height (c : NeuralNetworkConfig) : Z :=
  Math_max (inputNodes c) (hiddenLayers c ++ [outputNodes c]) * neuronDistance.

(** The [+ 30] of the labelled revision. *)
Definition labelReserve (r : revision) : Z :=
  match r with Plain => 0 | Labelled => 30 end.

Record point := { x : Z; y : Z }.

(** [Array.from({ length }, (_, i) => f(i))]; a negative length gives the
    empty array. *)
Definition Array_from {A} (len : Z) (f : nat → A) : list A :=
  f <$> seq 0 (Z.to_nat len).

(** [(height - (nodeCount - 1) * neuronDistance) / 2] is a division of an
    even number (see [centre_exact]), so the integer quotient is the
    JavaScript quotient. *)
Definition neurons (r : revision) (c : NeuralNetworkConfig) : list (list point) :=
  imap (λ layerIndex nodeCount,
    Array_from nodeCount (λ nodeIndex,
      {| x := Z.of_nat layerIndex * layerDistance + 50;
         y := Z.of_nat nodeIndex * neuronDistance
              + (height c - (nodeCount - 1) * neuronDistance) / 2
              + labelReserve r |}))
    (layers c).

Record connection := {
  startX : Z; startY : Z; endX : Z; endY : Z;
  key : string
}.

(** [layers.slice(0, -1)] *)
Definition slice_init {A} (l : list A) : list A := take (length l - 1) l.

(** [neurons[i]]; every index used below is in range
    (see [neurons_lookup_in_range]). *)
Definition at_index {A} (l : list (list A)) (i : nat) : list A :=
  default [] (l !! i).

Definition connections (r : revision) (c : NeuralNetworkConfig) : list connection :=
  mjoin (imap (λ layerIndex (_ : Z),
    mjoin (imap (λ startIndex startNeuron,
      imap (λ endIndex endNeuron,
        {| startX := x startNeuron;
           startY := y startNeuron;
           endX := x endNeuron;
           endY := y endNeuron;
           key := pretty layerIndex +:+ "-" +:+ pretty startIndex
                  +:+ "-" +:+ pretty endIndex |})
        (at_index (neurons r c) (layerIndex + 1)))
      (at_index (neurons r c) layerIndex)))
    (slice_init (layers c))).

(** *** Render *)

Record DataFlowProps := {
  flowStartX : Z; flowStartY : Z; flowEndX : Z; flowEndY : Z;
  flowSpeed : number
}.

(** What is drawn below the controls: the alert, or the SVG with its
    [text] label (labelled revision), one [line] per connection, one
    [circle] per neuron and one animated [motion.circle] per connection. *)
Inductive view :=
| Alert (message : string)
| Svg (svgWidth svgHeight : Z) (label : option jsstring)
      (lines : list connection) (circles : list point)
      (flows : list DataFlowProps).

Definition svg (r : revision) (s : state) : view :=
  let c := config s in
  Svg (width c) (height c + labelReserve r)
      (if hasDiagramName r then Some (diagramName s) else None)
      (connections r c)
      (mjoin (neurons r c))
      ((λ conn, {| flowStartX := startX conn; flowStartY := startY conn;
                   flowEndX := endX conn; flowEndY := endY conn;
                   flowSpeed := speed s |}) <$> connections r c).

(** [error ? alert : svg]: the empty string is falsy like [null]. *)
Definition render (r : revision) (s : state) : view :=
  match error s with
  | Some message => if decide (message = "") then svg r s else Alert message
  | None => svg r s
  end.

Definition nodeCount (v : view) : nat :=
  match v with Alert _ => 0 | Svg _ _ _ _ circles _ => length circles end.
Definition connectionCount (v : view) : nat :=
  match v with Alert _ => 0 | Svg _ _ _ lines _ _ => length lines end.
Definition markerCount (v : view) : nat :=
  match v with Alert _ => 0 | Svg _ _ _ _ _ flows => length flows end.
Definition errorMessages (v : view) : list string :=
  match v with Alert message => [message] | Svg _ _ _ _ _ _ => [] end.

End Visualizer.

Import Visualizer.

(** ** The animated marker

    [DataFlow] hands framer-motion a circle at the source node, keyframes for
    its [x] and [y] translation, a duration and linear easing.  Coordinates,
    speed and time are real numbers here: the rounding of IEEE doubles is not
    modelled.  [progressValue] and [markerAt] describe what framer-motion does
    with those props (keyframes spread evenly over the duration, linear
    interpolation between neighbours, the cycle repeated without end). *)
Module Motion.

#[local] Open Scope R_scope.












End Motion.

(** ** Specification-side notions *)

(** The TopologyConfig invariant of the data model. *)
Definition wellFormed (c : NeuralNetworkConfig) : Prop :=
  Forall (λ n, 1 ≤ n) (layers c) ∧ (2 ≤ length (layers c))%nat.

(** Sum of the products of neighbouring layer sizes. *)
Fixpoint adjacentProducts (sizes : list Z) : Z :=
  match sizes with
  | a :: (b :: _) as rest => a * b + adjacentProducts rest
  | _ => 0
  end.

Definition sumZ (sizes : list Z) : Z := foldr Z.add 0 sizes.

(** Number of nodes drawn for layer [i] of a topology (none past its end). *)
Definition sizeAt (sizes : list Z) (i : nat) : nat :=
  Z.to_nat (default 0 (sizes !! i)).

(** The neuron the layout places at index [nodeIndex] of layer [layerIndex],
    a layer of [nodeCount] nodes. *)
Definition neuronAt (r : revision) (c : NeuralNetworkConfig)
    (nodeCount : Z) (layerIndex nodeIndex : nat) : point :=
  {| x := Z.of_nat layerIndex * layerDistance + 50;
     y := Z.of_nat nodeIndex * neuronDistance
          + (height c - (nodeCount - 1) * neuronDistance) / 2
          + labelReserve r |}.

(** The connection from node [a], at index [ia] of layer [i], to node [b],
    at index [ib] of layer [i + 1]. *)
Definition connectionOf (i ia ib : nat) (a b : point) : connection :=
  {| startX := x a; startY := y a; endX := x b; endY := y b;
     key := pretty i +:+ "-" +:+ pretty ia +:+ "-" +:+ pretty ib |}.

(** Node [j] of layer [i], if there is one. *)
Definition node (r : revision) (c : NeuralNetworkConfig) (i j : nat)
  : option point :=
  neurons r c !! i ≫= (.!! j).

(** The largest layer size, as an upper bound that is attained. *)
Definition isMaximum (m : Z) (sizes : list Z) : Prop :=
  m ∈ sizes ∧ Forall (λ n, n ≤ m) sizes.


(** The text of a hidden-layers edit that raises the error. *)
Definition malformed (value : jsstring) : Prop :=
  value ≠ [] ∧ parseHiddenLayers value = [].

(** What the handler does keep of the config invariant: the input and
    output counts are at least 1 (there are always two layers or more by the
    shape of [layers]), and the error is absent or the fixed message. *)
Definition endsWellFormed (s : state) : Prop :=
  1 ≤ inputNodes (config s) ∧ 1 ≤ outputNodes (config s)
  ∧ (error s = None ∨ error s = Some errorMessage).

(** A sequence of change events, applied from the left. *)
Definition event : Type := string * jsstring.

Definition run (r : revision) (s : state) (events : list event) : state :=
  foldl (λ s e, handleInputChange r s e.1 e.2) s events.

(** The names of the inputs the component renders. *)
Definition fieldNames (r : revision) : list string :=
  ["inputNodes"; "hiddenLayers"; "outputNodes"; "speed"]
  ++ (if hasDiagramName r then ["diagramName"] else []).

Definition reachable (r : revision) (s : state) : Prop :=
  ∃ events, Forall (λ e : event, e.1 ∈ fieldNames r) events
            ∧ s = run r initial events.

(** ** The presentational components

    [Neuron] and [Connection] turn a node position and a connection into the
    SVG element that is drawn. *)

Record svgCircle := { circleX : Z; circleY : Z; radius : Z }.

(** [<circle cx={x} cy={y} r={6} />] *)
Definition Neuron (p : point) : svgCircle :=
  {| circleX := x p; circleY := y p; radius := 6 |}.

Record svgLine := { x1 : Z; y1 : Z; x2 : Z; y2 : Z }.

(** [<line x1={startX} y1={startY} x2={endX} y2={endY} />] *)
Definition Connection (conn : connection) : svgLine :=
  {| x1 := startX conn; y1 := startY conn;
     x2 := endX conn; y2 := endY conn |}.

(** The circle lies inside the view box [0 0 w h], below the band of height
    [top] that the labelled revision keeps for the diagram name. *)
Definition insideViewBox (w h top : Z) (k : svgCircle) : Prop :=
  0 ≤ circleX k - radius k ∧ circleX k + radius k ≤ w
  ∧ top ≤ circleY k - radius k ∧ circleY k + radius k ≤ h.

(** ** Decimal numerals, for statements about what the parser accepts *)




(** The character [-] that separates the indices in a connection key. *)
Definition dash : Ascii.ascii := Ascii.ascii_of_N 45.

(** No dash occurs in the string. *)
Fixpoint noDash (s : string) : bool :=
  match s with
  | EmptyString => true
  | String ch rest => negb (Ascii.eqb ch dash) && noDash rest
  end.

(** The raw text, the parsed layers and the error agree. *)
Definition inSync (s : state) : Prop :=
  (error s = None
   ∧ hiddenLayers (config s) = parseHiddenLayers (hiddenLayersInput s)
   ∧ ¬ malformed (hiddenLayersInput s))
  ∨ (error s = Some errorMessage ∧ malformed (hiddenLayersInput s)).

(** The radix [parseInt] settles on after the sign, and the text left to
    read: 16 after [0x] or [0X], else 10. *)
Definition radixPrefix (s : jsstring) : Z * jsstring :=
  match s with
  | 48%N :: 120%N :: r => (16, r)
  | 48%N :: 88%N :: r => (16, r)
  | _ => (10, s)
  end.

(** What [parseInt] makes of the digits read. *)
Definition parsedValue (sign : Z) (read : nat * Z * jsstring) : option Z :=
  match read with
  | (O, _, _) => None
  | (_, mathInt, _) => Some (sign * mathInt)
  end.

Definition allWhiteSpace (s : jsstring) : Prop :=
  Forall (λ c, isWhiteSpace c = true) s.


(** Number of commas in a text. *)
Definition commas (value : jsstring) : nat :=
  length (filter (λ c, c = 44%N) value).



(** ** Facts about the layout *)
Section Layout.

Context (r : revision) (c : NeuralNetworkConfig).

Lemma layers_length : length (layers c) = S (S (length (hiddenLayers c))).
Proof. unfold layers. rewrite length_cons, length_app. simpl. lia. Qed.

Lemma Math_max_lower x xs : x ≤ Math_max x xs.
Proof.
  unfold Math_max. revert x.
  induction xs as [|a xs IH]; intros x; simpl; [lia|].
  etrans; [|apply IH]. lia.
Qed.

Lemma Math_max_upper x xs : Forall (λ n, n ≤ Math_max x xs) xs.
Proof.
  unfold Math_max. revert x.
  induction xs as [|a xs IH]; intros x; simpl; constructor.
  - pose proof (Math_max_lower (x `max` a) xs) as H. unfold Math_max in H. lia.
  - apply IH.
Qed.

Lemma Math_max_attained x xs : Math_max x xs ∈ x :: xs.
Proof.
  unfold Math_max. revert x.
  induction xs as [|a xs IH]; intros x; simpl; [left|].
  specialize (IH (x `max` a)).
  apply elem_of_cons in IH as [->|IH].
  - destruct (Z.max_spec x a) as [[_ ->]|[_ ->]]; [right; left|left].
  - right; right; exact IH.
Qed.

Lemma height_maximum : ∃ m, isMaximum m (layers c) ∧ height c = m * 40.
Proof.
  exists (Math_max (inputNodes c) (hiddenLayers c ++ [outputNodes c])).
  split; [split|reflexivity].
  - apply Math_max_attained.
  - constructor; [apply Math_max_lower|apply Math_max_upper].
Qed.

(** The vertical slack of a layer is even, so halving it is exact. *)
Lemma centre_exact n :
  2 * ((height c - (n - 1) * neuronDistance) / 2)
  = height c - (n - 1) * neuronDistance.
Proof.
  unfold height, neuronDistance.
  set (m := Math_max _ _).
  replace (m * 40 - (n - 1) * 40) with ((20 * (m - n + 1)) * 2) by lia.
  rewrite Z.div_mul by lia. lia.
Qed.

Lemma neurons_lookup i :
  neurons r c !! i
  = (λ n, Array_from n (neuronAt r c n i)) <$> layers c !! i.
Proof. unfold neurons. now rewrite list_lookup_imap. Qed.

Lemma neurons_length : length (neurons r c) = length (layers c).
Proof. unfold neurons. apply length_imap. Qed.

Lemma Array_from_length {A} n (f : nat → A) :
  length (Array_from n f) = Z.to_nat n.
Proof. unfold Array_from. now rewrite length_fmap, length_seq. Qed.

Lemma Array_from_lookup {A} n (f : nat → A) j :
  Z.of_nat j < n → Array_from n f !! j = Some (f j).
Proof.
  intros Hj. unfold Array_from.
  rewrite list_lookup_fmap, lookup_seq_lt by lia. reflexivity.
Qed.

Lemma at_index_neurons i n :
  layers c !! i = Some n →
  at_index (neurons r c) i = Array_from n (neuronAt r c n i).
Proof. intros H. unfold at_index. now rewrite neurons_lookup, H. Qed.

(** Every index that [connections] reads from [neurons] is in range. *)
Lemma neurons_lookup_in_range i :
  (i < length (slice_init (layers c)))%nat →
  is_Some (neurons r c !! i) ∧ is_Some (neurons r c !! (i + 1)%nat).
Proof.
  unfold slice_init. rewrite length_take. intros Hi.
  split; apply lookup_lt_is_Some; rewrite neurons_length; lia.
Qed.

End Layout.

(** C4. The canvas is [(n - 1) * 150 + 100] wide for [n] layers and
    [40] times the largest layer size high. *)
Theorem C4_canvas_size (c : NeuralNetworkConfig) :
  width c = (Z.of_nat (length (layers c)) - 1) * 150 + 100
  ∧ ∃ m, isMaximum m (layers c) ∧ height c = m * 40.
Proof. split; [reflexivity|apply height_maximum]. Qed.

(** C5. Node [j] of layer [i], a layer of size [s], sits at
    [x = i * 150 + 50] and [y = j * 40 + (height - (s - 1) * 40) / 2], plus
    the label reserve (30 when the diagram name is drawn, 0 otherwise).  The
    division is exact, so the margin above the first node of the layer equals
    the margin below its last node: the layer is centred vertically. *)
Theorem C5_node_coordinates (r : revision) (c : NeuralNetworkConfig)
    (i j : nat) (s : Z) :
  layers c !! i = Some s →
  Z.of_nat j < s →
  ∃ p, node r c i j = Some p
       ∧ x p = Z.of_nat i * 150 + 50
       ∧ y p = Z.of_nat j * 40 + (height c - (s - 1) * 40) / 2 + labelReserve r
       ∧ labelReserve r = (if hasDiagramName r then 30 else 0)
       ∧ (height c - (s - 1) * 40) / 2
         = height c - ((s - 1) * 40 + (height c - (s - 1) * 40) / 2).
Proof.
  intros Hi Hj.
  exists (neuronAt r c s i j).
  unfold node. rewrite neurons_lookup, Hi. simpl.
  rewrite Array_from_lookup by done.
  repeat split.
  - now destruct r.
  - pose proof (centre_exact c s) as H. unfold neuronDistance in H. lia.
Qed.

Lemma C5_node_coordinates_witness :
  ∃ p, node Labelled (config initial) 1 2 = Some p ∧ x p = 200 ∧ y p = 130.
Proof.
  destruct (C5_node_coordinates Labelled (config initial) 1 2 4)
    as (p & Hp & Hx & Hy & _); [reflexivity|lia|].
  exists p. repeat split; [exact Hp|exact Hx|exact Hy].
Defined.

(** ** Counting nodes and connections *)
Section Counting.

Context (r : revision) (c : NeuralNetworkConfig).

Lemma sum_list_cons (n : nat) (l : list nat) :
  sum_list (n :: l) = (n + sum_list l)%nat.
Proof. reflexivity. Qed.

Lemma sum_to_nat (sizes : list Z) :
  Forall (λ n, 0 ≤ n) sizes →
  Z.of_nat (sum_list (Z.to_nat <$> sizes)) = sumZ sizes.
Proof.
  induction 1 as [|n sizes Hn _ IH]; [reflexivity|].
  rewrite fmap_cons, sum_list_cons.
  change (sumZ (n :: sizes)) with (n + sumZ sizes). lia.
Qed.

Lemma neurons_lengths :
  length <$> neurons r c = Z.to_nat <$> layers c.
Proof.
  unfold neurons. rewrite fmap_imap.
  rewrite <- (imap_const Z.to_nat).
  apply imap_ext. intros i n _. simpl. apply Array_from_length.
Qed.

Lemma node_count :
  length (mjoin (neurons r c)) = sum_list (Z.to_nat <$> layers c).
Proof. now rewrite length_join, neurons_lengths. Qed.

(** A join of equally long rows. *)
Lemma length_join_imap {A B} (f : nat → A → list B) (l : list A) (n : nat) :
  (∀ i a, length (f i a) = n) →
  length (mjoin (imap f l)) = (length l * n)%nat.
Proof.
  revert f. induction l as [|a l IH]; intros f Hf; [reflexivity|].
  change (mjoin (imap f (a :: l)))
    with (f 0%nat a ++ mjoin (imap (f ∘ S) l)).
  rewrite length_app, Hf, (IH (f ∘ S)); [simpl; lia|].
  intros i b. apply Hf.
Qed.

Lemma at_index_length i :
  length (at_index (neurons r c) i) = sizeAt (layers c) i.
Proof.
  unfold at_index, sizeAt. rewrite neurons_lookup.
  destruct (layers c !! i) as [n|]; simpl; [apply Array_from_length|reflexivity].
Qed.

Lemma connections_length :
  length (connections r c)
  = sum_list (imap (λ i (_ : Z),
      (sizeAt (layers c) i * sizeAt (layers c) (S i))%nat)
      (slice_init (layers c))).
Proof.
  unfold connections. rewrite length_join, fmap_imap.
  f_equal. apply imap_ext. intros i n _. simpl.
  rewrite (length_join_imap _ _ (length (at_index (neurons r c) (i + 1)))).
  - rewrite !at_index_length, Nat.add_1_r. reflexivity.
  - intros ia a. apply length_imap.
Qed.

Lemma slice_init_cons {A} (a b : A) (rest : list A) :
  slice_init (a :: b :: rest) = a :: slice_init (b :: rest).
Proof. unfold slice_init. simpl. now rewrite Nat.sub_0_r. Qed.

Lemma adjacent_sum (sizes : list Z) :
  Forall (λ n, 0 ≤ n) sizes →
  Z.of_nat (sum_list (imap (λ i (_ : Z),
      (sizeAt sizes i * sizeAt sizes (S i))%nat)
      (slice_init sizes)))
  = adjacentProducts sizes.
Proof.
  induction 1 as [|a sizes Ha Hrest IH]; [reflexivity|].
  destruct sizes as [|b rest]; [reflexivity|].
  rewrite slice_init_cons.
  cbn [imap adjacentProducts]. rewrite sum_list_cons.
  rewrite Nat2Z.inj_add, Nat2Z.inj_mul. unfold sizeAt at 1 2.
  simpl lookup. cbn [default].
  erewrite imap_ext; [rewrite IH|intros i n _; reflexivity].
  apply Forall_cons_1 in Hrest as [Hb _].
  unfold Datatypes.id. rewrite !Z2Nat.id by lia. reflexivity.
Qed.

Lemma at_index_lookup (i j : nat) (p : point) :
  at_index (neurons r c) i !! j = Some p ↔ node r c i j = Some p.
Proof.
  unfold at_index, node.
  destruct (neurons r c !! i) as [l|]; simpl; [reflexivity|].
  rewrite lookup_nil. reflexivity.
Qed.

(** The connections are the pairs of a node and a node of the next layer. *)
Lemma connections_elem (conn : connection) :
  conn ∈ connections r c ↔
  ∃ i ia ib a b,
    node r c i ia = Some a ∧ node r c (S i) ib = Some b
    ∧ conn = connectionOf i ia ib a b.
Proof.
  unfold connections. rewrite list_elem_of_join. split.
  - intros (row & Hconn & Hrow).
    apply elem_of_lookup_imap in Hrow as (i & n & -> & Hi).
    apply list_elem_of_join in Hconn as (cell & Hconn & Hcell).
    apply elem_of_lookup_imap in Hcell as (ia & a & -> & Ha).
    apply elem_of_lookup_imap in Hconn as (ib & b & -> & Hb).
    rewrite Nat.add_1_r in Hb.
    exists i, ia, ib, a, b. now rewrite <- !at_index_lookup.
  - intros (i & ia & ib & a & b & Ha & Hb & ->).
    assert (is_Some (slice_init (layers c) !! i)) as [n Hn].
    { apply lookup_lt_is_Some. unfold slice_init. rewrite length_take.
      unfold node in Hb.
      destruct (neurons r c !! S i) as [l|] eqn:E; [|discriminate].
      apply lookup_lt_Some in E. rewrite neurons_length in E. lia. }
    set (cell := λ i ia a,
           imap (λ ib b, connectionOf i ia ib a b)
                (at_index (neurons r c) (i + 1))).
    set (row := λ i, mjoin (imap (cell i) (at_index (neurons r c) i))).
    exists (row i). split;
      [|apply (elem_of_lookup_imap_2 (λ i (_ : Z), row i) _ n i Hn)].
    apply list_elem_of_join. exists (cell i ia a). split.
    + apply (elem_of_lookup_imap_2
               (λ ib b, connectionOf i ia ib a b) _ b ib).
      rewrite Nat.add_1_r. now apply at_index_lookup.
    + apply (elem_of_lookup_imap_2 (cell i) _ a ia).
      now apply at_index_lookup.
Qed.

(** *** No connection is emitted twice *)

Lemma NoDup_imap_index {A B} (f : nat → A → B) (l : list A) :
  (∀ i j a b, l !! i = Some a → l !! j = Some b → f i a = f j b → i = j) →
  NoDup (imap f l).
Proof.
  intros Hinj. apply NoDup_alt. intros i j y Hi Hj.
  rewrite list_lookup_imap in Hi, Hj.
  destruct (l !! i) as [a|] eqn:Ea; [|discriminate].
  destruct (l !! j) as [b|] eqn:Eb; [|discriminate].
  simpl in Hi, Hj. apply (Hinj i j a b Ea Eb). congruence.
Qed.

Lemma NoDup_join_imap {A B} (f : nat → A → list B) (l : list A) :
  (∀ i a, l !! i = Some a → NoDup (f i a)) →
  (∀ i j a b y, l !! i = Some a → l !! j = Some b →
                y ∈ f i a → y ∈ f j b → i = j) →
  NoDup (mjoin (imap f l)).
Proof.
  revert f. induction l as [|a l IH]; intros f Hrow Hsep; [constructor|].
  change (mjoin (imap f (a :: l)))
    with (f 0%nat a ++ mjoin (imap (f ∘ S) l)).
  apply NoDup_app. split; [|split].
  - now apply (Hrow 0%nat).
  - intros y Hy Hin.
    apply list_elem_of_join in Hin as (row & Hyrow & Hin).
    apply elem_of_lookup_imap in Hin as (j & b & -> & Hj).
    discriminate (Hsep 0%nat (S j) a b y eq_refl Hj Hy Hyrow).
  - apply IH.
    + intros i b Hi. now apply (Hrow (S i)).
    + intros i j b b' y Hi Hj Hy Hy'.
      apply (inj S). now apply (Hsep (S i) (S j) b b' y).
Qed.

Lemma Array_from_lookup_Some {A} n (f : nat → A) j a :
  Array_from n f !! j = Some a → a = f j.
Proof.
  unfold Array_from. rewrite list_lookup_fmap.
  destruct (seq 0 (Z.to_nat n) !! j) as [k|] eqn:E; [|discriminate].
  apply lookup_seq in E as [-> _]. simpl. congruence.
Qed.

(** A node read from [neurons[i]] is the one the layout formula gives. *)
Lemma at_index_neuronAt (i j : nat) (p : point) :
  at_index (neurons r c) i !! j = Some p →
  ∃ n, layers c !! i = Some n ∧ p = neuronAt r c n i j.
Proof.
  unfold at_index. rewrite neurons_lookup.
  destruct (layers c !! i) as [n|]; simpl.
  - intros H. exists n. split; [reflexivity|].
    now apply Array_from_lookup_Some in H.
  - now rewrite lookup_nil.
Qed.

Lemma connections_NoDup : NoDup (connections r c).
Proof.
  unfold connections. apply NoDup_join_imap.
  - intros i _ _. apply NoDup_join_imap.
    + intros ia a _. apply NoDup_imap_index.
      intros ib jb b b' Hb Hb' Heq.
      apply at_index_neuronAt in Hb as (n & Hn & ->).
      apply at_index_neuronAt in Hb' as (n' & Hn' & ->).
      assert (n' = n) as -> by congruence.
      apply (f_equal endY) in Heq. simpl in Heq.
      unfold neuronDistance in Heq. lia.
    + intros ia ja a a' conn Ha Ha' Hconn Hconn'.
      apply elem_of_lookup_imap in Hconn as (ib & b & -> & _).
      apply elem_of_lookup_imap in Hconn' as (jb & b' & Heq & _).
      apply at_index_neuronAt in Ha as (n & Hn & ->).
      apply at_index_neuronAt in Ha' as (n' & Hn' & ->).
      assert (n' = n) as -> by congruence.
      apply (f_equal startY) in Heq. simpl in Heq.
      unfold neuronDistance in Heq. lia.
  - intros i j _ _ conn _ _ Hconn Hconn'.
    apply list_elem_of_join in Hconn as (cell & Hconn & Hcell).
    apply elem_of_lookup_imap in Hcell as (ia & a & -> & Ha).
    apply elem_of_lookup_imap in Hconn as (ib & b & -> & _).
    apply list_elem_of_join in Hconn' as (cell & Hconn' & Hcell).
    apply elem_of_lookup_imap in Hcell as (ja & a' & -> & Ha').
    apply elem_of_lookup_imap in Hconn' as (jb & b' & Heq & _).
    apply at_index_neuronAt in Ha as (n & Hn & ->).
    apply at_index_neuronAt in Ha' as (n' & Hn' & ->).
    apply (f_equal startX) in Heq. simpl in Heq.
    unfold layerDistance in Heq. lia.
Qed.

End Counting.

(** Every sequence of at least two sizes is the topology of a config. *)
Lemma layers_any (sizes : list Z) :
  (2 ≤ length sizes)%nat → ∃ c, layers c = sizes.
Proof.
  destruct sizes as [|a rest]; simpl; [lia|].
  destruct rest as [|b rest _] using rev_ind; simpl; [lia|]. intros _.
  now exists {| inputNodes := a; hiddenLayers := rest; outputNodes := b |}.
Qed.

(** C1. A topology of [n >= 2] layers of sizes [s_1 .. s_n] is laid out with
    [s_1 + ... + s_n] nodes and [s_1 * s_2 + ... + s_(n-1) * s_n]
    connections; the connections are exactly the pairs of a node and a node
    of the next layer, each pair once. *)
Theorem C1_node_and_connection_counts
    (r : revision) (c : NeuralNetworkConfig) :
  Forall (λ n, 0 ≤ n) (layers c) →
  (2 ≤ length (layers c))%nat
  ∧ Z.of_nat (length (mjoin (neurons r c))) = sumZ (layers c)
  ∧ Z.of_nat (length (connections r c)) = adjacentProducts (layers c)
  ∧ NoDup (connections r c)
  ∧ ∀ conn, conn ∈ connections r c ↔
      ∃ i ia ib a b,
        node r c i ia = Some a ∧ node r c (S i) ib = Some b
        ∧ conn = connectionOf i ia ib a b.
Proof.
  intros Hpos. repeat split.
  - rewrite layers_length. lia.
  - rewrite node_count. now apply sum_to_nat.
  - rewrite connections_length. now apply adjacent_sum.
  - apply connections_NoDup.
  - apply connections_elem.
  - apply connections_elem.
Qed.

Lemma C1_node_and_connection_counts_witness :
  length (mjoin (neurons Plain (config initial))) = 9%nat
  ∧ length (connections Plain (config initial)) = 20%nat.
Proof.
  destruct (C1_node_and_connection_counts Plain (config initial))
    as (_ & Hn & Hc & _).
  - repeat constructor; vm_compute; discriminate.
  - split; apply Nat2Z.inj; [exact Hn|exact Hc].
Defined.

(** ** The change handler *)
Section Handler.

Context (r : revision).

Lemma handle_hiddenLayers (s : state) (value : jsstring) :
  handleInputChange r s "hiddenLayers" value
  = if bool_decide (malformed value)
    then setError (Some errorMessage) (setHiddenLayersInput value s)
    else setConfig (withHiddenLayers (parseHiddenLayers value))
           (setError None (setHiddenLayersInput value s)).
Proof.
  unfold handleInputChange, malformed.
  rewrite decide_True by reflexivity. cbv zeta.
  destruct (parseHiddenLayers value) as [|n l] eqn:E;
    destruct value as [|v vs]; reflexivity.
Qed.

Lemma handle_speed (s : state) (value : jsstring) :
  handleInputChange r s "speed" value = setSpeed (parseFloat value) s.
Proof. reflexivity. Qed.

Lemma handle_nodes (s : state) (name : string) (value : jsstring) :
  name = "inputNodes" ∨ name = "outputNodes" →
  handleInputChange r s name value
  = setConfig (withField name (Z.max (orOne (parseInt value)) 1)) s.
Proof. intros [-> | ->]; destruct r; reflexivity. Qed.

Lemma handle_diagramName (s : state) (value : jsstring) :
  handleInputChange r s "diagramName" value
  = if hasDiagramName r then setDiagramName value s else s.
Proof. destruct r, s as [[] ? ? ? ?]; reflexivity. Qed.

Lemma orOne_clamped (n : option Z) : 1 ≤ Z.max (orOne n) 1.
Proof. lia. Qed.


End Handler.

(** C3. The hidden-layers text ["4,3,2"] parses to [4;3;2] and ["4, ,2"] to
    [4;2]; the empty text parses to no layers and leaves the widget valid;
    ["abc"] parses to nothing and raises the fixed error message, which is
    what is then rendered. *)
Theorem C3_hidden_layers_examples (r : revision) (s : state) :
  parseHiddenLayers (js "4,3,2") = [4; 3; 2]
  ∧ hiddenLayers (config (handleInputChange r s "hiddenLayers" (js "4,3,2")))
    = [4; 3; 2]
  ∧ parseHiddenLayers (js "4, ,2") = [4; 2]
  ∧ hiddenLayers (config (handleInputChange r s "hiddenLayers" (js "4, ,2")))
    = [4; 2]
  ∧ parseHiddenLayers (js "") = []
  ∧ error (handleInputChange r s "hiddenLayers" (js "")) = None
  ∧ hiddenLayers (config (handleInputChange r s "hiddenLayers" (js ""))) = []
  ∧ parseHiddenLayers (js "abc") = []
  ∧ error (handleInputChange r s "hiddenLayers" (js "abc")) = Some errorMessage
  ∧ render r (handleInputChange r s "hiddenLayers" (js "abc"))
    = Alert errorMessage.
Proof. repeat split; reflexivity. Qed.



(** ** The error state *)
Section ErrorState.

Context (r : revision).

Lemma error_after_hiddenLayers (s : state) (value : jsstring) :
  error (handleInputChange r s "hiddenLayers" value)
  = if bool_decide (malformed value) then Some errorMessage else None.
Proof. rewrite handle_hiddenLayers. now case_bool_decide. Qed.

(** Only a hidden-layers edit touches the error. *)
Lemma error_other_fields (s : state) (name : string) (value : jsstring) :
  name ≠ "hiddenLayers" →
  error (handleInputChange r s name value) = error s.
Proof.
  intros Hname. unfold handleInputChange.
  rewrite decide_False by done.
  repeat (case_decide || case_match); reflexivity.
Qed.

Lemma render_alert (s : state) :
  error s = Some errorMessage → render r s = Alert errorMessage.
Proof. unfold render. now intros ->. Qed.

Lemma render_svg (s : state) : error s = None → render r s = svg r s.
Proof. unfold render. now intros ->. Qed.

(** The error stays up as long as every hidden-layers edit is malformed. *)
Lemma error_persists (events : list event) (s : state) :
  Forall (λ e : event, e.1 = "hiddenLayers" → malformed e.2) events →
  error s = Some errorMessage →
  error (run r s events) = Some errorMessage.
Proof.
  unfold run. intros Hev. revert s.
  induction Hev as [|[name value] events Hbad _ IH]; intros s Hs; [exact Hs|].
  simpl. apply IH.
  destruct (decide (name = "hiddenLayers")) as [->|Hname].
  - rewrite error_after_hiddenLayers, bool_decide_eq_true_2; [done|].
    now apply Hbad.
  - now rewrite error_other_fields.
Qed.

End ErrorState.

(** C7. After an edit of the hidden-layers field the error is set exactly
    when the text is not empty and no segment of it parses to an integer.
    While the error is set nothing of the diagram is drawn (no node, no
    connection, no marker) and one message, the fixed one, is shown.  The
    error stays through later edits until the first hidden-layers edit whose
    text is empty or yields an integer, and that edit clears it. *)
Theorem C7_error_state (r : revision) (s : state) (value : jsstring) :
  let s' := handleInputChange r s "hiddenLayers" value in
  (error s' ≠ None ↔ value ≠ [] ∧ length (parseHiddenLayers value) = 0%nat)
  ∧ (error s' ≠ None →
       error s' = Some errorMessage
       ∧ nodeCount (render r s') = 0%nat
       ∧ connectionCount (render r s') = 0%nat
       ∧ markerCount (render r s') = 0%nat
       ∧ errorMessages (render r s') = [errorMessage])
  ∧ (error s' = None → errorMessages (render r s') = [])
  ∧ ∀ (events : list event) (value' : jsstring),
      error s' ≠ None →
      Forall (λ e : event, e.1 = "hiddenLayers" → malformed e.2) events →
      value' = [] ∨ parseHiddenLayers value' ≠ [] →
      error (run r s' events) = Some errorMessage
      ∧ error (handleInputChange r (run r s' events) "hiddenLayers" value')
        = None.
Proof.
  intros s'.
  assert (error s' ≠ None → error s' = Some errorMessage) as Hset.
  { unfold s'. rewrite error_after_hiddenLayers. now case_bool_decide. }
  split; [|split; [|split]].
  - unfold s'. rewrite error_after_hiddenLayers, length_zero_iff_nil.
    unfold malformed. case_bool_decide; split; try done.
  - intros Hs. apply Hset in Hs.
    now rewrite (render_alert r s' Hs).
  - intros Hs. now rewrite (render_svg r s' Hs).
  - intros events value' Hs Hev Hgood. split.
    + apply error_persists; [exact Hev|now apply Hset].
    + rewrite error_after_hiddenLayers, bool_decide_eq_false_2; [done|].
      intros [Hne Hnil]. now destruct Hgood.
Qed.

Lemma C7_error_state_witness :
  error (handleInputChange Plain
           (run Plain (handleInputChange Plain initial "hiddenLayers" (js "abc"))
                [("inputNodes", js "7"); ("hiddenLayers", js "x,y")])
           "hiddenLayers" (js "5,5"))
  = None.
Proof.
  destruct (C7_error_state Plain initial (js "abc")) as (_ & _ & _ & H).
  apply H.
  - discriminate.
  - repeat constructor; simpl; solve [discriminate | reflexivity].
  - right. discriminate.
Defined.

(** C10. A hidden-layers edit that raises the error leaves the config as it
    was: the hidden layers keep the last list that parsed and the input and
    output counts are untouched; only the raw text and the error change.  The
    layout computed from the config is therefore the one from before the
    edit, and an edit back to a text that parses to the former hidden layers
    shows the former diagram again. *)
Theorem C10_invalid_edit_keeps_config
    (r : revision) (s : state) (value : jsstring) :
  value ≠ [] →
  parseHiddenLayers value = [] →
  let s' := handleInputChange r s "hiddenLayers" value in
  config s' = config s
  ∧ speed s' = speed s
  ∧ diagramName s' = diagramName s
  ∧ hiddenLayersInput s' = value
  ∧ error s' = Some errorMessage
  ∧ neurons r (config s') = neurons r (config s)
  ∧ connections r (config s') = connections r (config s)
  ∧ ∀ value' : jsstring,
      parseHiddenLayers value' = hiddenLayers (config s) →
      value' = [] ∨ hiddenLayers (config s) ≠ [] →
      let s'' := handleInputChange r s' "hiddenLayers" value' in
      config s'' = config s ∧ error s'' = None ∧ render r s'' = svg r s.
Proof.
  intros Hne Hnil. cbv zeta.
  rewrite (handle_hiddenLayers r s value), bool_decide_eq_true_2 by done.
  do 7 (split; [reflexivity|]).
  intros value' Hparse Hgood.
  rewrite handle_hiddenLayers, bool_decide_eq_false_2.
  - rewrite Hparse.
    assert (withHiddenLayers (hiddenLayers (config s)) (config s) = config s)
      as Hid by now destruct (config s).
    split; [exact Hid|]. split; [reflexivity|].
    unfold render, svg. simpl. now rewrite Hid.
  - intros [Hne' Hnil']. destruct Hgood as [?|Hh]; [done|].
    now rewrite <- Hparse in Hh.
Qed.

Lemma C10_invalid_edit_keeps_config_witness :
  config (handleInputChange Plain initial "hiddenLayers" (js "abc"))
  = config initial
  ∧ render Plain
      (handleInputChange Plain
         (handleInputChange Plain initial "hiddenLayers" (js "abc"))
         "hiddenLayers" (js " 4 "))
    = svg Plain initial.
Proof.
  destruct (C10_invalid_edit_keeps_config Plain initial (js "abc"))
    as (Hc & _ & _ & _ & _ & _ & _ & Hback); [discriminate|reflexivity|].
  split; [exact Hc|].
  apply (Hback (js " 4 ")); [reflexivity|right; discriminate].
Defined.

(** C9. An edit of the diagram name changes the stored name and nothing
    else: config, speed, raw hidden-layers text and error are as before, and
    so are the node positions, the connections and their numbers. *)
Theorem C9_label_edit_frame (s : state) (value : jsstring) :
  let s' := handleInputChange Labelled s "diagramName" value in
  s' = setDiagramName value s
  ∧ diagramName s' = value
  ∧ config s' = config s
  ∧ neurons Labelled (config s') = neurons Labelled (config s)
  ∧ connections Labelled (config s') = connections Labelled (config s)
  ∧ nodeCount (render Labelled s') = nodeCount (render Labelled s)
  ∧ connectionCount (render Labelled s') = connectionCount (render Labelled s)
  ∧ markerCount (render Labelled s') = markerCount (render Labelled s).
Proof.
  intros s'. unfold s'. rewrite (handle_diagramName Labelled). simpl.
  repeat split; unfold render; simpl; now destruct (error s) as [m|]; [case_decide|].
Qed.

(** ** Reachable states *)
Section Reachable.

Context (r : revision).

Lemma withField_ends (name : string) (v : Z) (c : NeuralNetworkConfig) :
  1 ≤ v → 1 ≤ inputNodes c → 1 ≤ outputNodes c →
  1 ≤ inputNodes (withField name v c) ∧ 1 ≤ outputNodes (withField name v c).
Proof. intros. unfold withField. repeat case_decide; simpl; lia. Qed.

Lemma handle_endsWellFormed (s : state) (name : string) (value : jsstring) :
  endsWellFormed s → endsWellFormed (handleInputChange r s name value).
Proof.
  intros (Hi & Ho & He). unfold endsWellFormed.
  destruct (decide (name = "hiddenLayers")) as [->|Hname].
  - rewrite handle_hiddenLayers. case_bool_decide; simpl; auto.
  - rewrite error_other_fields by done.
    unfold handleInputChange. rewrite decide_False by done.
    case_decide; [simpl; auto|].
    case_match; [simpl; auto|]. simpl.
    pose proof (withField_ends name _ (config s)
                  (orOne_clamped (parseInt value)) Hi Ho) as [? ?].
    auto.
Qed.

Lemma reachable_endsWellFormed (s : state) :
  reachable r s → endsWellFormed s ∧ (2 ≤ length (layers (config s)))%nat.
Proof.
  intros (events & _ & ->). split; [|rewrite layers_length; lia].
  unfold run.
  assert (endsWellFormed initial) as H0 by (repeat split; simpl; auto; lia).
  revert H0. generalize initial.
  induction events as [|[name value] events IH]; intros s Hs; [exact Hs|].
  simpl. apply IH. now apply handle_endsWellFormed.
Qed.

End Reachable.

(** C2, at the inputs that break it.  Typing ["0"] or ["-3"] into the
    hidden-layers field is accepted without an error and stores a layer of
    size 0 or -3, so a reachable state violates the config invariant; the
    diagram is then drawn with an empty middle layer and no connection. *)
Theorem C2_hidden_layer_below_one (r : revision) :
  let zero := handleInputChange r initial "hiddenLayers" (js "0") in
  let minus := handleInputChange r initial "hiddenLayers" (js "-3") in
  reachable r zero ∧ error zero = None
  ∧ layers (config zero) = [3; 0; 2] ∧ ¬ wellFormed (config zero)
  ∧ reachable r minus ∧ error minus = None
  ∧ layers (config minus) = [3; -3; 2] ∧ ¬ wellFormed (config minus)
  ∧ nodeCount (render r zero) = 5%nat ∧ connectionCount (render r zero) = 0%nat
  ∧ nodeCount (render r minus) = 5%nat ∧ connectionCount (render r minus) = 0%nat.
Proof.
  assert (∀ value, reachable r (handleInputChange r initial "hiddenLayers" value))
    as Hreach.
  { intros value. exists [("hiddenLayers", value)]. split; [|reflexivity].
    repeat constructor. }
  assert (∀ h, ¬ Forall (λ n, 1 ≤ n) [3; h; 2] ∨ 1 ≤ h) as Hdec.
  { intros h. destruct (decide (1 ≤ h)); [now right|left].
    intros H. apply Forall_cons_1 in H as [_ H].
    now apply Forall_cons_1 in H as [? _]. }
  cbv zeta. repeat split; try apply Hreach; try (destruct r; reflexivity).
  - intros [H _]. destruct (Hdec 0) as [Hn|?]; [|lia]. now apply Hn.
  - intros [H _]. destruct (Hdec (-3)) as [Hn|?]; [|lia]. now apply Hn.
Qed.

(** ** The animated marker *)
Section Marker.

Import Motion.
#[local] Open Scope R_scope.









End Marker.



(** * Further properties of the code *)

(** ** Geometry of the drawn nodes *)
Section NodeGeometry.

Context (r : revision) (c : NeuralNetworkConfig).

(** A node that exists is the one the layout formula gives, in a layer that
    is large enough to hold it. *)
Lemma node_Some (i j : nat) (p : point) :
  node r c i j = Some p ↔
  ∃ n, layers c !! i = Some n ∧ Z.of_nat j < n ∧ p = neuronAt r c n i j.
Proof.
  unfold node. rewrite neurons_lookup. split.
  - destruct (layers c !! i) as [n|]; simpl; [|discriminate].
    intros H. exists n. split; [reflexivity|].
    pose proof (lookup_lt_Some _ _ _ H) as Hlt.
    rewrite Array_from_length in Hlt.
    apply Array_from_lookup_Some in H. split; [lia|exact H].
  - intros (n & -> & Hj & ->). simpl. now apply Array_from_lookup.
Qed.

Lemma layer_le_max (i : nat) (n : Z) :
  layers c !! i = Some n → n * neuronDistance ≤ height c.
Proof.
  intros Hi. apply list_elem_of_lookup_2 in Hi.
  unfold layers in Hi. unfold height, neuronDistance.
  apply elem_of_cons in Hi as [->|Hi].
  - pose proof (Math_max_lower (inputNodes c) (hiddenLayers c ++ [outputNodes c])).
    lia.
  - pose proof (Math_max_upper (inputNodes c) (hiddenLayers c ++ [outputNodes c]))
      as Hup.
    rewrite Forall_forall in Hup. specialize (Hup n Hi). simpl in Hup. lia.
Qed.

Lemma slack_half (n : Z) :
  (height c - (n - 1) * neuronDistance) / 2
  = (height c - n * neuronDistance) / 2 + 20.
Proof.
  pose proof (centre_exact c n) as H1.
  pose proof (centre_exact c (n + 1)) as H2.
  replace (n + 1 - 1) with n in H2 by lia.
  unfold neuronDistance in *. lia.
Qed.

Lemma node_elem (i j : nat) (p : point) :
  node r c i j = Some p → p ∈ mjoin (neurons r c).
Proof.
  unfold node. intros H.
  destruct (neurons r c !! i) as [l|] eqn:E; [|discriminate]. simpl in H.
  apply list_elem_of_join. exists l.
  split; eapply list_elem_of_lookup_2; eassumption.
Qed.

Lemma elem_node (p : point) :
  p ∈ mjoin (neurons r c) → ∃ i j, node r c i j = Some p.
Proof.
  intros (l & Hp & Hl)%list_elem_of_join.
  apply list_elem_of_lookup_1 in Hl as [i Hi].
  apply list_elem_of_lookup_1 in Hp as [j Hj].
  exists i, j. unfold node. now rewrite Hi.
Qed.

End NodeGeometry.

(** X1. Every neuron circle is drawn inside the SVG view box and below the
    band kept for the diagram name: its centre is at least 50 from the left
    and right edges and at least 20 from the top of the drawing area and from
    the bottom edge, whatever the layer sizes are. *)
Theorem nodes_inside_view_box
    (r : revision) (c : NeuralNetworkConfig) (i j : nat) (p : point) :
  node r c i j = Some p →
  insideViewBox (width c) (height c + labelReserve r) (labelReserve r) (Neuron p)
  ∧ 50 ≤ x p ≤ width c - 50
  ∧ labelReserve r + 20 ≤ y p ≤ labelReserve r + height c - 20.
Proof.
  intros (n & Hi & Hj & ->)%node_Some.
  pose proof (lookup_lt_Some _ _ _ Hi) as Hlen.
  pose proof (layer_le_max c i n Hi) as Hmax.
  pose proof (centre_exact c n) as Hhalf.
  unfold insideViewBox, Neuron, neuronAt, width.
  cbn [x y circleX circleY radius].
  unfold layerDistance, neuronDistance in *.
  set (h := (height c - (n - 1) * 40) / 2) in *. clearbody h.
  repeat split; lia.
Qed.

Lemma nodes_inside_view_box_witness :
  insideViewBox 400 150 30 {| circleX := 200; circleY := 130; radius := 6 |}.
Proof.
  destruct (nodes_inside_view_box Labelled (config initial) 1 2
              {| x := 200; y := 130 |}) as (H & _); [reflexivity|exact H].
Defined.

(** X2. Two different nodes are never drawn on top of each other: nodes of
    different layers are at least 150 apart horizontally, nodes of one layer
    share their [x] and are at least 40 apart vertically, far more than the
    two radii of 6. *)
Theorem nodes_apart
    (r : revision) (c : NeuralNetworkConfig) (i j i' j' : nat) (p p' : point) :
  node r c i j = Some p →
  node r c i' j' = Some p' →
  (i, j) ≠ (i', j') →
  (i ≠ i' ∧ 150 ≤ Z.abs (x p - x p'))
  ∨ (i = i' ∧ x p = x p' ∧ 40 ≤ Z.abs (y p - y p')).
Proof.
  intros (n & Hi & Hj & ->)%node_Some (n' & Hi' & Hj' & ->)%node_Some Hne.
  unfold neuronAt, layerDistance, neuronDistance. simpl.
  destruct (decide (i = i')) as [<-|Hii]; [right|left; split; [done|lia]].
  assert (n' = n) as -> by congruence.
  assert (j ≠ j') by congruence.
  repeat split; lia.
Qed.

Lemma nodes_apart_witness :
  40 ≤ Z.abs (y {| x := 200; y := 50 |} - y {| x := 200; y := 130 |}).
Proof.
  destruct (nodes_apart Labelled (config initial) 1 0 1 2
              {| x := 200; y := 50 |} {| x := 200; y := 130 |})
    as [[H _]|(_ & _ & H)]; [reflexivity|reflexivity|discriminate|done|exact H].
Defined.

(** X3. Each layer is laid out symmetrically about the horizontal axis of
    the drawing area: node [j] of a layer of [n] nodes and node [n - 1 - j]
    are mirror images of each other. *)
Theorem layer_mirror_symmetry
    (r : revision) (c : NeuralNetworkConfig) (i j : nat) (n : Z) (p : point) :
  layers c !! i = Some n →
  node r c i j = Some p →
  ∃ q, node r c i (Z.to_nat (n - 1 - Z.of_nat j)) = Some q
       ∧ x q = x p
       ∧ (y p - labelReserve r) + (y q - labelReserve r) = height c.
Proof.
  intros Hn (n' & Hi & Hj & ->)%node_Some.
  assert (n' = n) as -> by congruence.
  exists (neuronAt r c n i (Z.to_nat (n - 1 - Z.of_nat j))).
  split; [|split].
  - apply node_Some. exists n. repeat split; [done|lia].
  - reflexivity.
  - pose proof (centre_exact c n) as Hhalf.
    unfold neuronAt, neuronDistance in *. simpl.
    rewrite Z2Nat.id by lia. lia.
Qed.

Lemma layer_mirror_symmetry_witness :
  ∃ q, node Plain (config initial) 1 3 = Some q ∧ y q = 140.
Proof.
  destruct (layer_mirror_symmetry Plain (config initial) 1 0 4
              {| x := 200; y := 20 |}) as (q & Hq & _ & Hy);
    [reflexivity|reflexivity|].
  exists q. split; [exact Hq|].
  change (20 - 0 + (y q - 0) = 160) in Hy. lia.
Defined.

(** ** Connections and the nodes they join *)

Lemma connection_step
    (r : revision) (c : NeuralNetworkConfig) (conn : connection) :
  conn ∈ connections r c → endX conn = startX conn + 150.
Proof.
  intros (i & ia & ib & a & b & Ha & Hb & ->)%connections_elem.
  apply node_Some in Ha as (n & _ & _ & ->).
  apply node_Some in Hb as (n' & _ & _ & ->).
  unfold neuronAt, layerDistance. simpl. lia.
Qed.

(** X4. Every line that is drawn runs from the centre of a drawn neuron to
    the centre of a drawn neuron one layer to the right, 150 further on. *)
Theorem connections_join_drawn_nodes
    (r : revision) (c : NeuralNetworkConfig) (conn : connection) :
  conn ∈ connections r c →
  ∃ a b, a ∈ mjoin (neurons r c) ∧ b ∈ mjoin (neurons r c)
         ∧ Connection conn = {| x1 := x a; y1 := y a; x2 := x b; y2 := y b |}
         ∧ x2 (Connection conn) = x1 (Connection conn) + 150.
Proof.
  intros (i & ia & ib & a & b & Ha & Hb & ->)%connections_elem.
  exists a, b.
  split; [now apply node_elem in Ha|]. split; [now apply node_elem in Hb|].
  split; [reflexivity|].
  apply (connection_step r c). apply connections_elem.
  now exists i, ia, ib, a, b.
Qed.

Lemma connections_join_drawn_nodes_witness :
  ∃ a b, a ∈ mjoin (neurons Plain (config initial))
         ∧ b ∈ mjoin (neurons Plain (config initial))
         ∧ x a = 50 ∧ x b = 200.
Proof.
  destruct (connections_join_drawn_nodes Plain (config initial)
              {| startX := 50; startY := 40; endX := 200; endY := 20;
                 key := "0-0-0" |}) as (a & b & Ha & Hb & Hline & _).
  - vm_compute. repeat constructor.
  - exists a, b. injection Hline as Hx1 _ Hx2 _. now repeat split.
Defined.

(** X5. In a well-formed topology no neuron is isolated: every drawn node
    is the start or the end of at least one connection. *)
Theorem no_isolated_neuron
    (r : revision) (c : NeuralNetworkConfig) (p : point) :
  wellFormed c →
  p ∈ mjoin (neurons r c) →
  ∃ conn, conn ∈ connections r c
          ∧ ((startX conn = x p ∧ startY conn = y p)
             ∨ (endX conn = x p ∧ endY conn = y p)).
Proof.
  intros [Hpos Hlen] (i & j & Hp)%elem_node.
  pose proof Hp as (n & Hi & _)%node_Some.
  apply lookup_lt_Some in Hi.
  rewrite Forall_lookup in Hpos.
  assert (∀ k, (k < length (layers c))%nat → ∃ q, node r c k 0 = Some q)
    as Hfirst.
  { intros k Hk. apply lookup_lt_is_Some in Hk as [m Hm].
    exists (neuronAt r c m k 0). apply node_Some. exists m.
    specialize (Hpos k m Hm). simpl in Hpos. repeat split; [done|lia]. }
  destruct (decide (S i < length (layers c))%nat) as [Hnext|Hlast].
  - destruct (Hfirst (S i) Hnext) as [q Hq].
    exists (connectionOf i j 0 p q). split; [|left; split; reflexivity].
    apply connections_elem. now exists i, j, 0%nat, p, q.
  - destruct i as [|i]; [lia|].
    destruct (Hfirst i) as [q Hq]; [lia|].
    exists (connectionOf i 0 j q p). split; [|right; split; reflexivity].
    apply connections_elem. now exists i, 0%nat, j, q, p.
Qed.

Lemma no_isolated_neuron_witness :
  ∃ conn, conn ∈ connections Plain (config initial)
          ∧ (startX conn = 350 ∨ endX conn = 350).
Proof.
  destruct (no_isolated_neuron Plain (config initial) {| x := 350; y := 100 |})
    as (conn & Hconn & [[Hx _]|[Hx _]]).
  - split; [|simpl; lia]. repeat constructor; simpl; lia.
  - vm_compute. repeat constructor.
  - exists conn. split; [exact Hconn|left; exact Hx].
  - exists conn. split; [exact Hconn|right; exact Hx].
Defined.

(** ** Connection keys *)
Section Keys.

Lemma pretty_N_go_noDash (n : N) (s : string) :
  noDash s = true → noDash (pretty_N_go n s) = true.
Proof.
  revert s. induction (N.lt_wf_0 n) as [n _ IH]; intros s Hs.
  assert (n = 0 ∨ 0 < n)%N as [->|Hn] by lia.
  - now rewrite pretty_N_go_0.
  - rewrite pretty_N_go_step by done. apply IH; [now apply N.div_lt|].
    simpl. rewrite Hs, andb_true_r.
    unfold pretty_N_char. now repeat case_match.
Qed.

Lemma pretty_nat_noDash (n : nat) : noDash (pretty n) = true.
Proof.
  unfold pretty, pretty_nat, pretty, pretty_N.
  case_decide; [reflexivity|]. now apply pretty_N_go_noDash.
Qed.

(** Two strings with a dash after a dash-free prefix agree only if the
    prefixes and the remainders agree. *)
Lemma dash_split (u u' v v' : string) :
  noDash u = true → noDash u' = true →
  u +:+ String dash v = u' +:+ String dash v' → u = u' ∧ v = v'.
Proof.
  revert u'. induction u as [|a u IH]; intros [|a' u'] Hu Hu' Heq;
    simpl in *.
  - now injection Heq as ->.
  - injection Heq as <- _. now rewrite Ascii.eqb_refl in Hu'.
  - injection Heq as -> _. now rewrite Ascii.eqb_refl in Hu.
  - injection Heq as -> Heq.
    apply andb_true_iff in Hu as [_ Hu]. apply andb_true_iff in Hu' as [_ Hu'].
    destruct (IH u' Hu Hu' Heq) as [-> ->]. done.
Qed.

Lemma key_indices (i ia ib i' ia' ib' : nat) (a b a' b' : point) :
  key (connectionOf i ia ib a b) = key (connectionOf i' ia' ib' a' b') →
  i = i' ∧ ia = ia' ∧ ib = ib'.
Proof.
  unfold connectionOf. simpl. intros Heq.
  apply dash_split in Heq as [Hi Heq]; try apply pretty_nat_noDash.
  apply dash_split in Heq as [Hia Hib]; try apply pretty_nat_noDash.
  repeat split; now apply (inj pretty).
Qed.

End Keys.

(** X6. The keys given to the connection lines and to the animated markers
    are pairwise different, as React requires of sibling elements: the key
    [layerIndex-startIndex-endIndex] identifies its connection. *)
Theorem connection_keys_unique (r : revision) (c : NeuralNetworkConfig) :
  NoDup (key <$> connections r c)
  ∧ ∀ conn conn', conn ∈ connections r c → conn' ∈ connections r c →
      key conn = key conn' → conn = conn'.
Proof.
  assert (∀ conn conn', conn ∈ connections r c → conn' ∈ connections r c →
            key conn = key conn' → conn = conn') as Hinj.
  { intros conn conn'
      (i & ia & ib & a & b & Ha & Hb & ->)%connections_elem
      (i' & ia' & ib' & a' & b' & Ha' & Hb' & ->)%connections_elem Hkey.
    apply key_indices in Hkey as (<- & <- & <-). congruence. }
  split; [|exact Hinj].
  apply NoDup_fmap_2_strong; [exact Hinj|apply connections_NoDup].
Qed.

Lemma connection_keys_unique_witness :
  NoDup (key <$> connections Plain (config initial))
  ∧ connectionOf 1 3 1 {| x := 200; y := 140 |} {| x := 350; y := 100 |}
    = {| startX := 200; startY := 140; endX := 350; endY := 100;
         key := "1-3-1" |}.
Proof.
  destruct (connection_keys_unique Plain (config initial)) as [Hnodup Hinj].
  split; [exact Hnodup|].
  apply Hinj; [vm_compute; repeat constructor..|reflexivity].
Defined.

(** ** How edits compose *)
Section Edits.

Context (r : revision).

Lemma handle_other (s : state) (name : string) (value : jsstring) :
  name ≠ "hiddenLayers" → name ≠ "speed" →
  (hasDiagramName r = false ∨ name ≠ "diagramName") →
  handleInputChange r s name value
  = setConfig (withField name (Z.max (orOne (parseInt value)) 1)) s.
Proof.
  intros H1 H2 H3. unfold handleInputChange.
  rewrite !decide_False by done.
  destruct H3 as [->|H3]; [reflexivity|].
  rewrite bool_decide_eq_false_2, andb_false_r by done. reflexivity.
Qed.

Lemma handle_cases (s : state) (name : string) (value : jsstring) :
  handleInputChange r s name value
  = (if bool_decide (malformed value)
     then setError (Some errorMessage) (setHiddenLayersInput value s)
     else setConfig (withHiddenLayers (parseHiddenLayers value))
            (setError None (setHiddenLayersInput value s)))
    ∧ name = "hiddenLayers"
  ∨ handleInputChange r s name value = setSpeed (parseFloat value) s
    ∧ name = "speed"
  ∨ handleInputChange r s name value = setDiagramName value s
    ∧ name = "diagramName" ∧ hasDiagramName r = true
  ∨ handleInputChange r s name value
    = setConfig (withField name (Z.max (orOne (parseInt value)) 1)) s
    ∧ name ≠ "hiddenLayers" ∧ name ≠ "speed"
    ∧ (hasDiagramName r = false ∨ name ≠ "diagramName").
Proof.
  destruct (decide (name = "hiddenLayers")) as [->|H1].
  { left. split; [apply handle_hiddenLayers|reflexivity]. }
  destruct (decide (name = "speed")) as [->|H2].
  { right; left. split; reflexivity. }
  destruct (decide (name = "diagramName")) as [->|H3].
  - destruct (hasDiagramName r) eqn:Hr.
    + right; right; left. rewrite handle_diagramName, Hr. auto.
    + do 3 right. rewrite handle_other by auto. auto.
  - do 3 right. rewrite handle_other by auto. auto.
Qed.

Lemma withField_comm (name name' : string) (v v' : Z) (c : NeuralNetworkConfig) :
  name ≠ name' →
  withField name' v' (withField name v c) = withField name v (withField name' v' c).
Proof.
  intros Hne. unfold withField.
  repeat case_decide; subst; try reflexivity; done.
Qed.


End Edits.

(** X7. Edits of two different inputs commute: the state after both does
    not depend on the order in which the two change events arrive. *)
Theorem edits_commute
    (r : revision) (s : state) (name name' : string) (value value' : jsstring) :
  name ≠ name' →
  handleInputChange r (handleInputChange r s name value) name' value'
  = handleInputChange r (handleInputChange r s name' value') name value.
Proof.
  intros Hne.
  destruct (handle_cases r s name value)
    as [[E ->]|[[E ->]|[(E & -> & Hr)|(E & H1 & H2 & H3)]]];
  destruct (handle_cases r s name' value')
    as [[E' ->]|[[E' ->]|[(E' & -> & Hr')|(E' & H1' & H2' & H3')]]];
  try done; rewrite E, E';
  repeat first
    [ rewrite handle_hiddenLayers
    | rewrite handle_speed
    | rewrite (handle_diagramName r), Hr
    | rewrite (handle_diagramName r), Hr'
    | rewrite (handle_other r _ name) by done
    | rewrite (handle_other r _ name') by done ];
  repeat case_bool_decide; try reflexivity;
  unfold setConfig, setError, setHiddenLayersInput, setSpeed, setDiagramName;
  simpl; f_equal;
  try (destruct H3 as [H3|H3]; [congruence|]);
  try (destruct H3' as [H3'|H3']; [congruence|]);
  try (unfold withField, withHiddenLayers;
       rewrite ?decide_False by done; reflexivity);
  try (unfold withField, withHiddenLayers; repeat case_decide; reflexivity).
  now apply withField_comm.
Qed.

Lemma edits_commute_witness :
  handleInputChange Plain
    (handleInputChange Plain initial "hiddenLayers" (js "abc")) "inputNodes" (js "7")
  = handleInputChange Plain
      (handleInputChange Plain initial "inputNodes" (js "7")) "hiddenLayers" (js "abc").
Proof. apply edits_commute. discriminate. Defined.



(** ** Raw text, parsed layers and error stay in step *)
Section InSync.

Context (r : revision).

Lemma handle_inSync (s : state) (name : string) (value : jsstring) :
  inSync s → inSync (handleInputChange r s name value).
Proof.
  intros Hs. unfold inSync in *.
  destruct (handle_cases r s name value)
    as [[E _]|[[E _]|[(E & _)|(E & _)]]]; rewrite E; try exact Hs.
  - case_bool_decide; simpl; [now right|now left].
  - simpl. assert (hiddenLayers (withField name
                     (Z.max (orOne (parseInt value)) 1) (config s))
                   = hiddenLayers (config s)) as ->; [|exact Hs].
    unfold withField. now repeat case_decide.
Qed.

Lemma reachable_inSync (s : state) : reachable r s → inSync s.
Proof.
  intros (events & _ & ->). unfold run.
  assert (inSync initial) as H0.
  { left. repeat split. intros [_ H]. discriminate H. }
  revert H0. generalize initial.
  induction events as [|[name value] events IH]; intros s Hs; [exact Hs|].
  simpl. apply IH. now apply handle_inSync.
Qed.

End InSync.

(** X9. In every reachable state the two representations of the hidden
    layers agree: either there is no error, the config holds exactly what the
    raw text parses to and the diagram is rendered, or the fixed error is
    up, the raw text is malformed and only the alert is rendered. *)
Theorem raw_text_and_config_in_sync (r : revision) (s : state) :
  reachable r s →
  (error s = None
   ∧ hiddenLayers (config s) = parseHiddenLayers (hiddenLayersInput s)
   ∧ render r s = svg r s)
  ∨ (error s = Some errorMessage
     ∧ malformed (hiddenLayersInput s)
     ∧ render r s = Alert errorMessage).
Proof.
  intros [(He & Hh & _)|[He Hm]]%reachable_inSync; [left|right].
  - now rewrite (render_svg r s He).
  - now rewrite (render_alert r s He).
Qed.

Lemma raw_text_and_config_in_sync_witness :
  hiddenLayers
    (config (run Labelled initial
               [("hiddenLayers", js "7, 8"); ("diagramName", js "net");
                ("speed", js "2.5"); ("outputNodes", js "3")]))
  = [7; 8].
Proof.
  destruct (raw_text_and_config_in_sync Labelled
              (run Labelled initial
                 [("hiddenLayers", js "7, 8"); ("diagramName", js "net");
                  ("speed", js "2.5"); ("outputNodes", js "3")]))
    as [(_ & H & _)|(H & _)].
  - eexists. split; [|reflexivity].
    repeat constructor.
  - exact H.
  - discriminate H.
Defined.

(** X10. The canvas never degenerates: in every reachable state, also after
    hidden layers of size 0 or below were typed in, the SVG is at least 250
    wide and 40 high, and when the diagram is shown it has at least two
    neurons. *)
Theorem canvas_never_degenerate (r : revision) (s : state) :
  reachable r s →
  250 ≤ width (config s)
  ∧ 40 ≤ height (config s)
  ∧ (error s = None → (2 ≤ nodeCount (render r s))%nat).
Proof.
  intros [(Hin & Hout & _) Hlen]%reachable_endsWellFormed.
  split; [|split].
  - unfold width, layerDistance. lia.
  - pose proof (Math_max_lower (inputNodes (config s))
                  (hiddenLayers (config s) ++ [outputNodes (config s)])).
    unfold height, neuronDistance. lia.
  - intros He. rewrite (render_svg r s He).
    change (nodeCount (svg r s)) with (length (mjoin (neurons r (config s)))).
    rewrite node_count. unfold layers.
    rewrite fmap_cons, fmap_app, sum_list_cons, sum_list_with_app. simpl. lia.
Qed.

Lemma canvas_never_degenerate_witness :
  40 ≤ height (config (run Plain initial
                         [("inputNodes", js "1"); ("outputNodes", js "1");
                          ("hiddenLayers", js "0,-2")])).
Proof.
  destruct (canvas_never_degenerate Plain
              (run Plain initial
                 [("inputNodes", js "1"); ("outputNodes", js "1");
                  ("hiddenLayers", js "0,-2")])) as (_ & H & _).
  - eexists. split; [|reflexivity]. repeat constructor.
  - exact H.
Defined.

(** ** Angle and distance of a connection *)
Section Polar.

Import Motion.
#[local] Open Scope R_scope.





End Polar.




(** ** The marker along its connection *)
Section OnTheLine.

Import Motion.
#[local] Open Scope R_scope.


End OnTheLine.



(** ** The integer parser *)
Section ParseInt.

Lemma parseInt_unfold (str : jsstring) :
  parseInt str
  = parsedValue (stripSign (trimStart str)).1
      (digits (radixPrefix (stripSign (trimStart str)).2).1 0 0
              (radixPrefix (stripSign (trimStart str)).2).2).
Proof.
  unfold parseInt, parsedValue.
  destruct (stripSign (trimStart str)) as [sign s]. cbn [fst snd].
  change (match s with
          | 48%N :: 120%N :: r => (16, r)
          | 48%N :: 88%N :: r => (16, r)
          | _ => (10, s)
          end) with (radixPrefix s).
  destruct (radixPrefix s) as [radix rest]. reflexivity.
Qed.

Lemma stripSign_cons (c : code_unit) (r : jsstring) :
  stripSign (c :: r)
  = if (c =? 45)%N then (-1, r) else if (c =? 43)%N then (1, r) else (1, c :: r).
Proof.
  unfold stripSign.
  destruct c as [|p]; [reflexivity|].
  repeat (destruct p as [p|p|]; try reflexivity).
Qed.

Lemma radixPrefix_cons2 (a b : code_unit) (r : jsstring) :
  radixPrefix (a :: b :: r)
  = if ((a =? 48) && ((b =? 120) || (b =? 88)))%N then (16, r)
    else (10, a :: b :: r).
Proof.
  unfold radixPrefix.
  destruct a as [|p]; [reflexivity|].
  repeat (destruct p as [p|p|]; try reflexivity).
  destruct b as [|q]; [reflexivity|].
  repeat (destruct q as [q|q|]; try reflexivity).
Qed.

Lemma radixPrefix_short (s : jsstring) :
  (length s < 2)%nat → radixPrefix s = (10, s).
Proof.
  destruct s as [|a [|b r]]; simpl; try lia; intros _; [reflexivity|].
  unfold radixPrefix.
  destruct a as [|p]; [reflexivity|].
  repeat (destruct p as [p|p|]; try reflexivity).
Qed.

(** White space is neither a sign, nor a digit of any radix, nor part of a
    hexadecimal prefix, nor a comma. *)
Lemma whiteSpace_not (w c : code_unit) :
  isWhiteSpace w = true → isWhiteSpace c = false → (w =? c)%N = false.
Proof.
  intros Hw Hc. destruct (N.eqb_spec w c) as [->|]; [congruence|reflexivity].
Qed.

Lemma whiteSpace_no_digit (radix : Z) (w : code_unit) :
  isWhiteSpace w = true → digitValue radix w = None.
Proof.
  intros Hw. unfold isWhiteSpace in Hw.
  rewrite !orb_true_iff, !andb_true_iff, !N.leb_le, !N.eqb_eq in Hw.
  unfold digitValue.
  repeat match goal with
  | |- context [((?a <=? ?b) && (?c <=? ?d))%N] =>
      let E := fresh in
      destruct ((a <=? b) && (c <=? d))%N eqn:E;
      [apply andb_true_iff in E as [?%N.leb_le ?%N.leb_le]; lia|]
  end.
  reflexivity.
Qed.

Lemma trimStart_spec (s : jsstring) :
  ∃ ws, s = ws ++ trimStart s ∧ allWhiteSpace ws
        ∧ match trimStart s with
          | [] => True
          | c :: _ => isWhiteSpace c = false
          end.
Proof.
  induction s as [|c s (ws & Hs & Hws & Hhead)].
  { exists []. repeat split. constructor. }
  simpl. destruct (isWhiteSpace c) eqn:Hc.
  - exists (c :: ws). split; [now rewrite Hs at 1|]. split; [|exact Hhead].
    now constructor.
  - exists []. split; [reflexivity|]. split; [constructor|exact Hc].
Qed.

Lemma trimEnd_spec (s : jsstring) :
  ∃ ws, s = trimEnd s ++ ws ∧ allWhiteSpace ws.
Proof.
  destruct (trimStart_spec (reverse s)) as (ws & Hs & Hws & _).
  exists (reverse ws). split.
  - unfold trimEnd. rewrite <- reverse_app, <- Hs. now rewrite reverse_involutive.
  - unfold allWhiteSpace in *. now rewrite reverse_Permutation.
Qed.

Lemma trimStart_fixed (s : jsstring) :
  match s with [] => True | c :: _ => isWhiteSpace c = false end →
  trimStart s = s.
Proof. destruct s as [|c r]; [reflexivity|]. simpl. now intros ->. Qed.

Lemma stripSign_app (u ws : jsstring) :
  allWhiteSpace ws →
  stripSign (u ++ ws) = ((stripSign u).1, (stripSign u).2 ++ ws).
Proof.
  intros Hws. destruct u as [|c u].
  - destruct Hws as [|w ws Hw _]; [reflexivity|].
    simpl app. rewrite stripSign_cons.
    now rewrite !(whiteSpace_not w) by done.
  - simpl app. rewrite !stripSign_cons. now repeat case_match.
Qed.

Lemma radixPrefix_app (v ws : jsstring) :
  allWhiteSpace ws →
  radixPrefix (v ++ ws) = ((radixPrefix v).1, (radixPrefix v).2 ++ ws).
Proof.
  intros Hws. destruct v as [|a [|b v]].
  - destruct Hws as [|w ws Hw Hws]; [reflexivity|].
    destruct Hws as [|w' ws Hw' _].
    + now rewrite radixPrefix_short by (simpl; lia).
    + simpl app. rewrite radixPrefix_cons2.
      now rewrite (whiteSpace_not w 48%N) by done.
  - destruct Hws as [|w ws Hw _].
    + now rewrite !radixPrefix_short by (simpl; lia).
    + change ([a] ++ w :: ws) with (a :: w :: ws).
      rewrite radixPrefix_cons2, (radixPrefix_short [a]) by (simpl; lia).
      rewrite !(whiteSpace_not w) by done. now rewrite andb_false_r.
  - change ((a :: b :: v) ++ ws) with (a :: b :: v ++ ws).
    rewrite !radixPrefix_cons2. now case_match.
Qed.

Lemma digits_app (radix : Z) (v ws : jsstring) (n : nat) (acc : Z) :
  allWhiteSpace ws →
  digits radix n acc (v ++ ws)
  = ((digits radix n acc v).1.1, (digits radix n acc v).1.2,
     (digits radix n acc v).2 ++ ws).
Proof.
  intros Hws. revert n acc. induction v as [|c v IH]; intros n acc.
  - destruct Hws as [|w ws Hw _]; [reflexivity|].
    simpl. now rewrite whiteSpace_no_digit.
  - simpl. destruct (digitValue radix c); [apply IH|reflexivity].
Qed.

(** White space after the text does not change what [parseInt] reads. *)
Lemma parseInt_app_whiteSpace (u ws : jsstring) :
  match u with [] => True | c :: _ => isWhiteSpace c = false end →
  allWhiteSpace ws →
  parseInt (u ++ ws) = parseInt u.
Proof.
  intros Hu Hws. rewrite !parseInt_unfold.
  assert (trimStart (u ++ ws) = u ++ ws ∨ u = []) as [->| ->].
  { destruct u as [|c u]; [now right|left].
    now apply (trimStart_fixed ((c :: u) ++ ws)). }
  - rewrite (trimStart_fixed u Hu), stripSign_app by done. simpl.
    rewrite radixPrefix_app by done. simpl.
    rewrite digits_app by done.
    destruct (digits _ 0 0 _) as [[k v] rest]. reflexivity.
  - simpl app. destruct (trimStart_spec ws) as (ws' & Hsplit & _ & Hhead).
    assert (allWhiteSpace (trimStart ws)) as Hrest.
    { unfold allWhiteSpace in *. rewrite Hsplit in Hws.
      now apply Forall_app in Hws as [_ ?]. }
    destruct (trimStart ws) as [|w rest]; [reflexivity|].
    apply Forall_cons_1 in Hrest as [Hw _]. congruence.
Qed.

Lemma parseInt_trim (m : jsstring) : parseInt (trim m) = parseInt m.
Proof.
  unfold trim.
  destruct (trimStart_spec m) as (_ & _ & _ & Hhead).
  destruct (trimEnd_spec (trimStart m)) as (ws & Hsplit & Hws).
  assert (match trimEnd (trimStart m) with
          | [] => True
          | c :: _ => isWhiteSpace c = false
          end) as Hu.
  { destruct (trimEnd (trimStart m)) as [|c u]; [done|].
    rewrite Hsplit in Hhead. exact Hhead. }
  transitivity (parseInt (trimStart m)).
  - rewrite Hsplit at 2. symmetry. now apply parseInt_app_whiteSpace.
  - rewrite !parseInt_unfold.
    now rewrite (trimStart_fixed (trimStart m) Hhead).
Qed.

End ParseInt.

(** X14. The [trim] in front of [parseInt] makes no difference to the
    parsed hidden layers: [parseInt] skips leading white space itself and
    stops reading before trailing white space, so [parseInt(n.trim())] and
    [parseInt(n)] agree on every string. *)
Theorem parseInt_ignores_trim (n : jsstring) :
  parseInt (trim n) = parseInt n
  ∧ ∀ value, parseHiddenLayers value = omap parseInt (split 44%N value).
Proof.
  split; [apply parseInt_trim|].
  intros value. unfold parseHiddenLayers.
  induction (split 44%N value) as [|seg segs IH]; [reflexivity|].
  cbn. rewrite parseInt_trim. destruct (parseInt seg); [f_equal|]; exact IH.
Qed.

(** ** Splitting at commas *)
Section Split.

Context (sep : code_unit).

Lemma split_cons_ne (c : code_unit) (s : jsstring) :
  c ≠ sep →
  ∃ seg segs, split sep s = seg :: segs ∧ split sep (c :: s) = (c :: seg) :: segs.
Proof.
  intros Hc. simpl. rewrite (proj2 (N.eqb_neq c sep) Hc).
  destruct (split sep s) as [|seg segs] eqn:E; [|eauto].
  destruct s as [|d s]; simpl in E; [discriminate|].
  destruct (d =? sep)%N; [discriminate|].
  destruct (split sep s); discriminate.
Qed.

Lemma split_app_sep (a b : jsstring) :
  split sep (a ++ sep :: b) = split sep a ++ split sep b.
Proof.
  induction a as [|c a IH].
  - simpl. now rewrite N.eqb_refl.
  - destruct (decide (c = sep)) as [->|Hc].
    + simpl. now rewrite N.eqb_refl, IH.
    + destruct (split_cons_ne c a Hc) as (seg & segs & Ha & Hca).
      destruct (split_cons_ne c (a ++ sep :: b) Hc) as (seg' & segs' & Hab & Hcab).
      change ((c :: a) ++ sep :: b) with (c :: a ++ sep :: b).
      rewrite Hcab, Hca. rewrite IH, Ha in Hab.
      injection Hab as <- <-. reflexivity.
Qed.


Lemma split_length (s : jsstring) :
  length (split sep s) = S (length (filter (λ c, c = sep) s)).
Proof.
  induction s as [|c s IH]; [reflexivity|].
  destruct (decide (c = sep)) as [->|Hc].
  - rewrite (filter_cons_True (λ c, c = sep)) by done. cbn [split]. rewrite N.eqb_refl.
    cbn [length]. now rewrite IH.
  - destruct (split_cons_ne c s Hc) as (seg & segs & Hs & ->).
    rewrite (filter_cons_False (λ c, c = sep)) by done.
    rewrite Hs in IH. simpl in *. exact IH.
Qed.

End Split.

(** X15. The hidden-layers text is parsed segment by segment: the layers of
    two texts joined by a comma are the layers of the first followed by the
    layers of the second, and a text never yields more layers than it has
    commas plus one. *)
Theorem hidden_layers_parse_by_segment (a b : jsstring) :
  parseHiddenLayers (a ++ 44%N :: b)
  = parseHiddenLayers a ++ parseHiddenLayers b
  ∧ (length (parseHiddenLayers a) ≤ S (commas a))%nat.
Proof.
  unfold parseHiddenLayers. split.
  - now rewrite split_app_sep, omap_app.
  - unfold commas. rewrite <- (split_length 44%N).
    generalize (split 44%N a). intros segs.
    induction segs as [|seg segs IH]; [reflexivity|].
    cbn. destruct (parseInt (trim seg)); simpl; lia.
Qed.

(** ** Decimal numerals are read back *)
Section Numerals.













End Numerals.



(** ** Re-submitting what a field shows *)
Section Resubmit.

Context (r : revision).



End Resubmit.



(** X18. Every edit touches only its own part of the state.  A
    hidden-layers edit, accepted or not, stores the text verbatim and leaves
    the input and output counts, the speed and the diagram name alone; a
    speed edit changes nothing but the speed; an edit of one node count
    leaves the other count, the hidden layers, their raw text, the speed and
    the diagram name alone. *)
Theorem edits_touch_only_their_field
    (r : revision) (s : state) (value : jsstring) :
  let h := handleInputChange r s "hiddenLayers" value in
  let p := handleInputChange r s "speed" value in
  let i := handleInputChange r s "inputNodes" value in
  let o := handleInputChange r s "outputNodes" value in
  (hiddenLayersInput h = value
   ∧ inputNodes (config h) = inputNodes (config s)
   ∧ outputNodes (config h) = outputNodes (config s)
   ∧ speed h = speed s ∧ diagramName h = diagramName s)
  ∧ (config p = config s ∧ hiddenLayersInput p = hiddenLayersInput s
     ∧ error p = error s ∧ diagramName p = diagramName s
     ∧ connections r (config p) = connections r (config s)
     ∧ neurons r (config p) = neurons r (config s))
  ∧ (outputNodes (config i) = outputNodes (config s)
     ∧ hiddenLayers (config i) = hiddenLayers (config s)
     ∧ hiddenLayersInput i = hiddenLayersInput s
     ∧ speed i = speed s ∧ diagramName i = diagramName s)
  ∧ (inputNodes (config o) = inputNodes (config s)
     ∧ hiddenLayers (config o) = hiddenLayers (config s)
     ∧ hiddenLayersInput o = hiddenLayersInput s
     ∧ speed o = speed s ∧ diagramName o = diagramName s).
Proof.
  cbv zeta. rewrite handle_hiddenLayers, handle_speed.
  rewrite !handle_nodes by auto.
  split; [|split; [|split]].
  - case_bool_decide; repeat split.
  - repeat split.
  - repeat split.
  - repeat split.
Qed.

(** ** The speed parser on decimal literals *)
Section ParseFloat.





End ParseFloat.


